(** * bTCP server and client sockets: a shallow embedding

    The development follows [btcp/server_socket.py] and
    [btcp/client_socket.py].  Byte strings are lists of bytes, Python
    integers are [Z], the socket object is a record that every method
    takes and returns, and what a method does to the lossy layer is
    recorded as a list of events.

    Conventions of the embedding.
    - The base class [BTCPSocket] (with [build_segment_header] and
      [unpack_segment_header]), the enumeration [BTCPStates], the class
      [LossyLayer] and [btcp/constants.py] are not among the sources.
      The two header functions are section variables; the enumeration
      and the constructor of the base class are modelled from the
      specification.
    - A bare name in a method body is looked up in the scope of the
      module, not in the class.  Neither module binds [SYN_RCVD] or
      [CLOSING] (the members are [BTCPStates.SYN_RCVD] and
      [BTCPStates.CLOSING]), nor [increment_synack], [pack_and_pad] or
      [send_SYNACK] (attributes of the class), nor [Queue] (the import
      is [queue]); the client module does not import [struct].
      Evaluating such a name raises [NameError], and the model raises
      it at that point, with the socket as the lines before left it.
    - [len(self.s_queue)]: [queue.Queue] has no length, the call raises
      [TypeError]. *)

From Stdlib Require Import ZArith List Bool Lia.
From Stdlib Require Import Strings.Byte.
Import ListNotations.
Open Scope Z_scope.

(** ** Byte strings and the [struct] module *)

Definition bytes := list byte.

Definition byte_val (b : byte) : Z := Z.of_N (Byte.to_N b).

(** One big-endian unsigned 16-bit word, as [struct] format ['!H'] reads it. *)
Definition word16 (hi lo : byte) : Z := byte_val hi * 256 + byte_val lo.

(** [struct.iter_unpack('!H', buffer)]: the words of the buffer, or
    [None] for [struct.error] when the length is not a multiple of 2. *)
Fixpoint iter_unpack_H (buffer : bytes) : option (list Z) :=
  match buffer with
  | [] => Some []
  | [_] => None
  | hi :: lo :: rest =>
      match iter_unpack_H rest with
      | Some ws => Some (word16 hi lo :: ws)
      | None => None
      end
  end.

Definition sum (ws : list Z) : Z := fold_right Z.add 0 ws.

(** The loop [while acc > 0xFFFF: carry = acc >> 16; acc &= 0xFFFF;
    acc += carry], one iteration per unit of fuel. *)
Fixpoint fold_carry (fuel : nat) (acc : Z) : Z :=
  match fuel with
  | O => acc
  | S fuel' =>
      if acc >? 0xFFFF then
        let carry := Z.shiftr acc 16 in
        let acc := Z.land acc 0xFFFF in
        let acc := acc + carry in
        fold_carry fuel' acc
      else acc
  end.

(** The loop run to its end: [acc / 0xFFFF + 1] iterations are enough
    (see [fold16_le]). *)
Definition fold16 (acc : Z) : Z := fold_carry (Z.to_nat (acc / 0xFFFF) + 1) acc.

(** Lines 108-112 of the server, 74-78 of the client: the accumulator
    tested against [0xFFFF], or [None] when [iter_unpack] raises. *)
Definition checksum_acc (segment : bytes) : option Z :=
  match iter_unpack_H segment with
  | Some ws => Some (fold16 (sum ws))
  | None => None
  end.

(** [pack_and_pad(payload)]: pad with NUL bytes to 1008, then
    [struct.pack("!1008s", payload)], which truncates a longer string. *)
Definition pack_and_pad (payload : bytes) : bytes :=
  let input_value := [x00] in
  let padding_length := 1008 - Z.of_nat (length payload) in
  let payload := payload ++ concat (repeat input_value (Z.to_nat padding_length)) in
  firstn 1008 payload.

(** [increment_synack(syn)]. *)
Definition increment_synack (syn : Z) : Z :=
  if syn <? 65535 then syn + 1 else 1.

(** ** The delivery queue: [queue.Queue(maxsize=window)] *)

Record Queue := mkQueue { maxsize : Z; items : list bytes }.

Definition qsize (q : Queue) : Z := Z.of_nat (length (items q)).

Definition empty (q : Queue) : bool :=
  match items q with [] => true | _ => false end.

(** [get(False)]: [None] when it raises [queue.Empty]. *)
Definition get_nowait (q : Queue) : option (bytes * Queue) :=
  match items q with
  | [] => None
  | x :: rest => Some (x, mkQueue (maxsize q) rest)
  end.

(** ** Sockets, exceptions and effects *)

(** Modelled from the spec: the enumeration [BTCPStates] of
    [btcp/btcp_socket.py], which is not among the sources; the states
    are those of the connection state machine. *)
Inductive BTCPStates : Set :=
| CLOSED | ACCEPTING | SYN_SENT | SYN_RCVD | ESTABLISHED | FIN_SENT | CLOSING.

Definition state_eqb (a b : BTCPStates) : bool :=
  match a, b with
  | CLOSED, CLOSED | ACCEPTING, ACCEPTING | SYN_SENT, SYN_SENT
  | SYN_RCVD, SYN_RCVD | ESTABLISHED, ESTABLISHED | FIN_SENT, FIN_SENT
  | CLOSING, CLOSING => true
  | _, _ => false
  end.

(** The exceptions that the modelled code can raise. *)
Inductive exn : Set :=
| StructError | NameError | TypeError | NotImplementedError.

(** The lossy layer object; the socket holds a reference to it or [None]. *)
Inductive LossyLayer : Set := LossyLayerObject.

(** What a method asks of the lossy layer, in order. *)
Inductive event : Set :=
| SendSegment (segment : bytes)     (* [_lossy_layer.send_segment(...)] *)
| DelLayer                          (* [_lossy_layer.__del__(...)] *)
| DestroyLayer.                     (* [_lossy_layer.destroy()] *)

(** Modelled from the spec: [LossyLayer] is not among the sources; the
    transition to [CLOSED] "releases the datagram layer" and [close]
    "releases the datagram-layer resource", so both the explicit
    destructor call and [destroy] release the layer. *)
Definition is_release (e : event) : bool :=
  match e with
  | SendSegment _ => false
  | DelLayer | DestroyLayer => true
  end.

Definition releases (evs : list event) : nat := length (filter is_release evs).

(** How a method ends: it returns or it raises.  Each carries the
    socket and the events up to that point. *)
Inductive outcome (S : Type) : Type :=
| Returned (self : S) (evs : list event)
| Raised (e : exn) (self : S) (evs : list event).

Arguments Returned {S} self evs.
Arguments Raised {S} e self evs.

(** The socket and the events at the point where a method ended. *)
Definition sock_of {S : Type} (o : outcome S) : S :=
  match o with
  | Returned self _ | Raised _ self _ => self
  end.

Definition events_of {S : Type} (o : outcome S) : list event :=
  match o with
  | Returned _ evs | Raised _ _ evs => evs
  end.

(** The fields that [unpack_segment_header] returns. *)
Record Header := mkHeader {
  seqnum : Z; acknum : Z;
  syn_set : bool; ack_set : bool; fin_set : bool;
  window : Z; length_ : Z; checksum : Z }.

(** The server socket: the attributes of [BTCPServerSocket.__init__]
    and those of its base class that the methods read. *)
Record Server := mkServer {
  _state : BTCPStates;
  _window : Z;
  _lossy_layer : option LossyLayer;
  s_queue : Queue;
  s_syn : Z;
  s_ack : Z;
  establishing_ack : Z;
  closing_ack : Z }.

Definition set_state (v : BTCPStates) (self : Server) : Server :=
  mkServer v (_window self) (_lossy_layer self) (s_queue self)
           (s_syn self) (s_ack self) (establishing_ack self) (closing_ack self).
Definition set_lossy_layer (v : option LossyLayer) (self : Server) : Server :=
  mkServer (_state self) (_window self) v (s_queue self)
           (s_syn self) (s_ack self) (establishing_ack self) (closing_ack self).
Definition set_s_queue (v : Queue) (self : Server) : Server :=
  mkServer (_state self) (_window self) (_lossy_layer self) v
           (s_syn self) (s_ack self) (establishing_ack self) (closing_ack self).
Definition set_s_syn (v : Z) (self : Server) : Server :=
  mkServer (_state self) (_window self) (_lossy_layer self) (s_queue self)
           v (s_ack self) (establishing_ack self) (closing_ack self).
Definition set_s_ack (v : Z) (self : Server) : Server :=
  mkServer (_state self) (_window self) (_lossy_layer self) (s_queue self)
           (s_syn self) v (establishing_ack self) (closing_ack self).
Definition set_establishing_ack (v : Z) (self : Server) : Server :=
  mkServer (_state self) (_window self) (_lossy_layer self) (s_queue self)
           (s_syn self) (s_ack self) v (closing_ack self).
Definition set_closing_ack (v : Z) (self : Server) : Server :=
  mkServer (_state self) (_window self) (_lossy_layer self) (s_queue self)
           (s_syn self) (s_ack self) (establishing_ack self) v.

(** Modelled from the spec: the constructor of the base class, which
    [BTCPServerSocket.__init__(window, timeout)] calls first, is not
    among the sources; it keeps the configured window and starts in
    [CLOSED].  The other fields are the assignments of [__init__]. *)
Definition Server_init (window : Z) : Server :=
  mkServer CLOSED window (Some LossyLayerObject) (mkQueue window [])
           0 0 0 0.

(** ** The server socket *)

Section ServerSocket.

(** The header functions of the base class, which the server calls but
    which are not among the sources.  [unpack_segment_header] gives
    [None] when it raises ([struct.error] on a header that is not 10
    bytes long); the last argument of [build_segment_header] is the
    keyword argument [window], [None] when the call leaves it out. *)
Variable unpack_segment_header : bytes -> option Header.
Variable build_segment_header : Z -> Z -> bool -> bool -> bool -> option Z -> bytes.

(** [lossy_layer_segment_received(self, segment)]. *)
Definition lossy_layer_segment_received (self : Server) (segment : bytes)
  : outcome Server :=
  (* Checksum verification. If it fails the segment is dropped (return) *)
  match checksum_acc segment with
  | None => Raised StructError self []
  | Some acc =>
  if negb (acc =? 0xFFFF) then Returned self [] else
  (* Divide the header and payload *)
  let header_length := 10%nat in
  let header := firstn header_length segment in
  let payload := skipn header_length segment in
  (* Unpack the header *)
  match unpack_segment_header header with
  | None => Raised StructError self []
  | Some h =>
  let seqnum := seqnum h in
  let acknum := acknum h in
  let syn_set := syn_set h in
  let ack_set := ack_set h in
  let fin_set := fin_set h in
  (* Line 124, connection establishment: every name is qualified. *)
  if syn_set && (state_eqb (_state self) ACCEPTING || state_eqb (_state self) SYN_RCVD) then
    let self := set_s_ack seqnum self in
    let self := set_state SYN_RCVD self in
    Returned self []
  (* Line 128: [if ack_set and self._state == SYN_RCVD and ...].  With
     [ack_set] false the test stops at its first operand.  With
     [ack_set] true the second operand reads the bare name [SYN_RCVD]:
     NameError.  Lines 129-131 are not reached. *)
  else if ack_set then
    Raised NameError self []
  (* Line 135, connection termination. *)
  else if fin_set && (state_eqb (_state self) ESTABLISHED || state_eqb (_state self) CLOSING) then
    let self := set_state CLOSING self in
    if closing_ack self =? 0 then
      (* Line 138: [increment_synack(...)], a bare name: NameError. *)
      Raised NameError self []
    else
      (* Line 139 builds the header; line 140 reads the bare name
         [pack_and_pad]: NameError.  Lines 141-144 are not reached. *)
      let header := build_segment_header (s_syn self) seqnum false true true None in
      Raised NameError self []
  (* Line 145: [if ack_set and self._state == CLOSING and ...].  Here
     [ack_set] is false (line 128 raised otherwise), so the test stops
     at its first operand; lines 146-148, the transition to CLOSED with
     [self._lossy_layer.__del__(...)], are not reached. *)
  (* Line 151, processing segments during establishment. *)
  else if negb ack_set && negb syn_set && negb fin_set
          && state_eqb (_state self) ESTABLISHED then
    if s_ack self + 1 =? seqnum then
      (* Line 153: [increment_synack(...)], a bare name: NameError.
         Lines 154-155, the second increment and [s_queue.put], are not
         reached. *)
      Raised NameError self []
    else
      (* Line 156: [len(self.s_queue)] on a [queue.Queue]: TypeError.
         Lines 158-161 are not reached. *)
      Raised TypeError self []
  else Returned self []
  end end.

(** The segments of a list handled one after the other, as the network
    thread does; a call that raises ends the run. *)
Fixpoint receive_all (self : Server) (segments : list bytes) : outcome Server :=
  match segments with
  | [] => Returned self []
  | segment :: rest =>
      match lossy_layer_segment_received self segment with
      | Returned self evs =>
          match receive_all self rest with
          | Returned self' evs' => Returned self' (evs ++ evs')
          | Raised e self' evs' => Raised e self' (evs ++ evs')
          end
      | stop => stop
      end
  end.

(** [lossy_layer_tick(self)]: [pass], then [raise NotImplementedError];
    the socket is not written. *)
Definition lossy_layer_tick (self : Server) : outcome Server :=
  Raised NotImplementedError self [].


(** *** [accept]

    [accept] runs in the application thread and polls [_state], which
    the network thread writes.  [net n] is what the network thread does
    to the socket during the [n]-th [time.sleep] of the call, and
    [randint n] is the [n]-th value drawn by [random.randint(1,65535)].
    The method is a machine over its program points; one step runs the
    code from one point to the next.  Line 256 calls [send_SYNACK()] by
    its bare name, which the module does not bind: NameError.  Lines
    258-268, the retry loop and the test that leaves the outer loop, are
    not reached, so the machine has no point for them. *)
Variable net : nat -> Server -> Server.
Variable randint : nat -> Z.

Inductive accept_pc : Set :=
| AtOuter                          (* line 244, top of [while(True)] *)
| AtWait                           (* line 250, test of the first inner loop *)
| AtSynAck                         (* line 256 *)
| AcceptRaised (e : exn).

Record accept_cfg := mkCfg {
  pc : accept_pc;
  timeout : Z;
  sock : Server;
  sent : list event;
  sleeps : nat;
  draws : nat }.

Definition accept_start (self : Server) : accept_cfg :=
  mkCfg AtOuter 0 self [] 0 0.

Definition accept_step (c : accept_cfg) : accept_cfg :=
  let self := sock c in
  match pc c with
  | AtOuter =>
      let drew := s_syn self =? 0 in
      let self := if drew then set_s_syn (randint (draws c)) self else self in
      let self := set_establishing_ack (s_syn self) self in
      let self := set_state ACCEPTING self in
      mkCfg AtWait (timeout c) self (sent c) (sleeps c)
            (if drew then S (draws c) else draws c)
  | AtWait =>
      if negb (state_eqb (_state self) SYN_RCVD) then
        let self := net (sleeps c) self in            (* time.sleep(10) *)
        let timeout := timeout c + 10 in
        if timeout >? 5000 then
          mkCfg AtSynAck timeout (set_state CLOSED self) (sent c) (S (sleeps c)) (draws c)
        else
          mkCfg AtWait timeout self (sent c) (S (sleeps c)) (draws c)
      else mkCfg AtSynAck (timeout c) self (sent c) (sleeps c) (draws c)
  | AtSynAck =>
      (* [send_SYNACK()]: the bare name is not bound. *)
      mkCfg (AcceptRaised NameError) (timeout c) self (sent c) (sleeps c) (draws c)
  | AcceptRaised _ => c
  end.

Definition accept_steps (n : nat) (c : accept_cfg) : accept_cfg :=
  Nat.iter n accept_step c.

(** [accept(self)], run for [fuel] steps: how the call ended, with the
    socket and the segments it has sent, or [None] while it is still
    running. *)
Definition accept (fuel : nat) (self : Server) : option (outcome Server) :=
  let c := accept_steps fuel (accept_start self) in
  match pc c with
  | AcceptRaised e => Some (Raised e (sock c) (sent c))
  | _ => None
  end.

(** *** [recv] and [close] *)

Inductive recv_result : Type :=
| RecvReturned (data : bytes) (self : Server)
| RecvRaised (e : exn) (self : Server).

(** The loop [while(self.s_queue.empty() and self._state ==
    BTCPStates.ESTABLISHED): time.sleep(100)]; the network thread acts
    during each sleep.  [None]: still waiting after [fuel] sleeps. *)
Fixpoint recv_wait (fuel sleeps : nat) (self : Server) : option Server :=
  if empty (s_queue self) && state_eqb (_state self) ESTABLISHED then
    match fuel with
    | O => None
    | S fuel' => recv_wait fuel' (S sleeps) (net sleeps self)
    end
  else Some self.

(** The loop [while(data_segments <= 25)] with [todo] iterations left
    ([data_segments] runs from 0 to 25, so [recv] starts it with 26).
    When [get(False)] raises [queue.Empty], the handler clause
    [except Queue.Emtpy] is evaluated and raises [NameError]. *)
Fixpoint recv_drain (todo : nat) (data : bytes) (self : Server) : recv_result :=
  match todo with
  | O => RecvReturned data self
  | S todo' =>
      match get_nowait (s_queue self) with
      | Some (item, q) => recv_drain todo' (data ++ item) (set_s_queue q self)
      | None => RecvRaised NameError self
      end
  end.

(** [recv(self)]; [None] while it is still in its waiting loop. *)
Definition recv (fuel : nat) (self : Server) : option recv_result :=
  match recv_wait fuel 0 self with
  | None => None
  | Some self =>
      let data := [] in
      Some (recv_drain 26 data self)
  end.

(** [close(self)]. *)
Definition close (self : Server) : Server * list event :=
  let evs := match _lossy_layer self with
             | Some _ => [DestroyLayer]
             | None => []
             end in
  (set_lossy_layer None self, evs).




End ServerSocket.

(** ** The client socket *)

Module Client.

(** The attributes of [BTCPClientSocket.__init__]. *)
Record t := mk {
  _state : BTCPStates;
  _window : Z;
  _lossy_layer : option LossyLayer;
  s_queue : Queue;
  s_syn : Z;
  s_ack : Z;
  establishing_ack : Z;
  closing_ack : Z }.

(** [lossy_layer_segment_received(self, segment)].  Its first
    statement (line 74) evaluates [struct.iter_unpack]; the module
    imports [BTCPSocket], [BTCPStates], [LossyLayer] and the constants,
    not [struct], so the name is not bound: NameError, whatever the
    segment.  The checksum test of lines 75-79 and the
    [raise NotImplementedError] of line 84 are not reached. *)
Definition lossy_layer_segment_received (self : t) (segment : bytes) : outcome t :=
  Raised NameError self [].

(** [send(self, data)]: [pass], then [raise NotImplementedError]. *)
Definition send (self : t) (data : bytes) : outcome t :=
  Raised NotImplementedError self [].

(** [close(self)]. *)
Definition close (self : t) : t * list event :=
  let evs := match _lossy_layer self with
             | Some _ => [DestroyLayer]
             | None => []
             end in
  (mk (_state self) (_window self) None (s_queue self)
      (s_syn self) (s_ack self) (establishing_ack self) (closing_ack self), evs).

End Client.

(** ** A header layout for the examples

    The theorems below hold for every pair of header functions; the
    pair defined here serves the concrete examples. *)

Definition byte_of_Z (z : Z) : byte :=
  match Byte.of_N (Z.to_N (z mod 256)) with
  | Some b => b
  | None => x00
  end.

Definition pack_H (z : Z) : bytes := [byte_of_Z (z / 256); byte_of_Z z].

(** Modelled from the spec: [unpack_segment_header] of the base class,
    which is not among the sources.  The header holds sequence number,
    acknowledgement number, flags, window, length and checksum; in the
    10 bytes that the server cuts off ([header_length = 10]) that is
    [struct] format ["!HHBBHH"], here with the flags SYN, ACK and FIN in
    bits 2, 1 and 0 of the flag byte.  Any other length raises. *)
Definition unpack_HHBBHH (header : bytes) : option Header :=
  match header with
  | [s1; s0; a1; a0; fl; w; l1; l0; c1; c0] =>
      let flag_byte := byte_val fl in
      Some (mkHeader (word16 s1 s0) (word16 a1 a0)
                     (Z.testbit flag_byte 2) (Z.testbit flag_byte 1)
                     (Z.testbit flag_byte 0)
                     (byte_val w) (word16 l1 l0) (word16 c1 c0))
  | _ => None
  end.

(** Modelled from the spec: [build_segment_header] of the base class,
    which is not among the sources, in the same layout; a call without
    [window] advertises 1, and length and checksum are left 0, as no
    call of the server passes them. *)
Definition build_HHBBHH (seqnum acknum : Z) (syn_set ack_set fin_set : bool)
                        (window : option Z) : bytes :=
  let flag_byte := Z.b2z syn_set * 4 + Z.b2z ack_set * 2 + Z.b2z fin_set in
  let window := match window with Some w => w | None => 1 end in
  pack_H seqnum ++ pack_H acknum ++ [byte_of_Z flag_byte; byte_of_Z window]
         ++ pack_H 0 ++ pack_H 0.

(** A network thread that writes nothing to the socket during any
    sleep: total peer silence.  (The only callback that runs without a
    segment is [lossy_layer_tick], which leaves the socket as it is.) *)
Definition silent_net (n : nat) (self : Server) : Server := self.

(** ** Example segments and sockets

    Segments in the layout above, each with a checksum field that makes
    the 16-bit words of the segment sum to [0xFFFF]. *)



(** No flags, sequence number 11, payload [b"hi"]. *)
Definition example_data : bytes :=
  [x00; x0b; x00; x00; x00; x01; x00; x02; x97; x88; x68; x69].


(** [example_data] with its last byte changed: the words sum to 1. *)
Definition example_corrupt : bytes :=
  [x00; x0b; x00; x00; x00; x01; x00; x02; x97; x88; x68; x6a].

(** FIN, sequence number 12. *)
Definition example_fin : bytes :=
  [x00; x0c; x00; x00; x01; x01; x00; x00; xfe; xf2].


(** An established connection of a server with window 4: sequence
    cursor 7, ack cursor 10, no closing number recorded. *)
Definition example_established : Server :=
  mkServer ESTABLISHED 4 (Some LossyLayerObject) (mkQueue 4 []) 7 10 7 0.

(** A server socket in [CLOSED] with an empty delivery queue. *)
Definition example_closed : Server :=
  mkServer CLOSED 4 (Some LossyLayerObject) (mkQueue 4 []) 9 11 7 9.

(** A client socket for the examples. *)
Definition example_client : Client.t :=
  Client.mk ESTABLISHED 4 (Some LossyLayerObject) (mkQueue 4 []) 7 10 7 0.




(** ** Further notions for the properties of the handlers *)






(** How [accept] can end: by the [NameError] of line 256, with nothing
    sent and the state that its waiting loop left. *)
Definition ended_at_synack (c : accept_cfg) : Prop :=
  pc c = AcceptRaised NameError /\ sent c = [] /\
  (_state (sock c) = SYN_RCVD \/ _state (sock c) = CLOSED).

(** * Properties *)

(** ** The checksum loop ends *)

Lemma land_shiftr_16 (acc : Z) :
  0 <= acc ->
  Z.land acc 0xFFFF + Z.shiftr acc 16 = acc - 65535 * (acc / 65536).
Proof.
  intros Hacc.
  change 0xFFFF with (Z.ones 16).
  rewrite Z.land_ones by lia.
  rewrite Z.shiftr_div_pow2 by lia.
  change (2 ^ 16) with 65536. change (Z.ones 16) with 65535.
  pose proof (Z.div_mod acc 65536 ltac:(lia)) as Hdm.
  lia.
Qed.

Lemma fold_carry_le (fuel : nat) :
  forall acc, 0 <= acc <= 65535 * Z.of_nat fuel ->
              0 <= fold_carry fuel acc <= 0xFFFF.
Proof.
  induction fuel as [|fuel IH]; intros acc Hacc.
  - simpl. lia.
  - rewrite Nat2Z.inj_succ in Hacc. cbn [fold_carry].
    destruct (acc >? 65535) eqn:Hgt.
    + apply Z.gtb_lt in Hgt.
      apply IH. rewrite land_shiftr_16 by lia.
      assert (1 <= acc / 65536) by (apply Z.div_le_lower_bound; lia).
      pose proof (Z.mul_div_le acc 65536 ltac:(lia)).
      lia.
    + rewrite Z.gtb_ltb in Hgt. apply Z.ltb_ge in Hgt. lia.
Qed.

(** With the fuel that [fold16] gives it the loop has reached its exit
    condition [acc <= 0xFFFF]. *)
Lemma fold16_le (acc : Z) : 0 <= acc -> 0 <= fold16 acc <= 0xFFFF.
Proof.
  intros Hacc. unfold fold16. apply fold_carry_le.
  pose proof (Z.div_mod acc 65535 ltac:(lia)) as Hdm.
  pose proof (Z.mod_pos_bound acc 65535 ltac:(lia)) as Hmod.
  assert (0 <= acc / 65535) by (apply Z.div_pos; lia).
  rewrite Nat2Z.inj_add, Z2Nat.id by lia. simpl Z.of_nat. lia.
Qed.

Lemma byte_val_range (b : byte) : 0 <= byte_val b <= 255.
Proof. destruct b; unfold byte_val; simpl; lia. Qed.

Lemma iter_unpack_H_nonneg :
  forall n buffer ws, (length buffer <= n)%nat ->
    iter_unpack_H buffer = Some ws -> 0 <= sum ws.
Proof.
  induction n as [|n IH]; intros buffer ws Hlen Hws.
  - destruct buffer; simpl in *; [injection Hws as <-; simpl; lia | lia].
  - destruct buffer as [|hi [|lo rest]]; simpl in Hws.
    + injection Hws as <-. simpl. lia.
    + discriminate.
    + destruct (iter_unpack_H rest) as [ws'|] eqn:Hrest; [|discriminate].
      injection Hws as <-. simpl.
      assert (0 <= sum ws') by (apply (IH rest); [simpl in Hlen; lia | assumption]).
      pose proof (byte_val_range hi). pose proof (byte_val_range lo).
      unfold word16. lia.
Qed.

(** The accumulator that the handlers test is a 16-bit value. *)
Lemma checksum_acc_range (segment : bytes) (acc : Z) :
  checksum_acc segment = Some acc -> 0 <= acc <= 0xFFFF.
Proof.
  unfold checksum_acc. destruct (iter_unpack_H segment) as [ws|] eqn:Hws; [|discriminate].
  intros [= <-]. apply fold16_le.
  eapply iter_unpack_H_nonneg; [apply Nat.le_refl | exact Hws].
Qed.

(** [iter_unpack] raises exactly on the buffers of odd length. *)
Lemma iter_unpack_H_odd :
  forall n buffer, (length buffer <= n)%nat ->
    (iter_unpack_H buffer = None <-> Nat.odd (length buffer) = true).
Proof.
  induction n as [|n IH]; intros buffer Hlen.
  - destruct buffer; simpl in *; [split; discriminate | lia].
  - destruct buffer as [|hi [|lo rest]].
    + simpl. split; discriminate.
    + simpl. split; reflexivity.
    + change (length (hi :: lo :: rest)) with (S (S (length rest))).
      rewrite Nat.odd_succ_succ. simpl iter_unpack_H.
      specialize (IH rest ltac:(simpl in Hlen; lia)).
      destruct (iter_unpack_H rest); [|tauto].
      split; [discriminate|]. intros H. apply IH in H. discriminate.
Qed.

Lemma checksum_acc_odd (segment : bytes) :
  checksum_acc segment = None <-> Nat.odd (length segment) = true.
Proof.
  unfold checksum_acc.
  pose proof (iter_unpack_H_odd (length segment) segment (Nat.le_refl _)) as H.
  destruct (iter_unpack_H segment).
  - split; [discriminate|]. intros Ho. apply H in Ho. discriminate.
  - split; [intros _; apply H|]; reflexivity.
Qed.

(** ** Sequence numbers *)

Lemma increment_synack_range (s : Z) :
  0 <= s -> 1 <= increment_synack s <= 65535.
Proof.
  intros Hs. unfold increment_synack.
  destruct (s <? 65535) eqn:Hlt; [apply Z.ltb_lt in Hlt|]; lia.
Qed.

Lemma iter_increment_synack_range (n : nat) (s : Z) :
  0 <= s -> 1 <= Nat.iter (S n) increment_synack s <= 65535.
Proof.
  intros Hs. induction n as [|n IH].
  - simpl. apply increment_synack_range. exact Hs.
  - change (Nat.iter (S (S n)) increment_synack s)
      with (increment_synack (Nat.iter (S n) increment_synack s)).
    apply increment_synack_range. lia.
Qed.

(** C8: for every sequence number [s] with [0 <= s <= 65535],
    [increment_synack s] is [s + 1] when [s < 65535] and [1] when
    [s = 65535]; it is never [0], and no number of repeated increments
    of [s] gives [0]. *)
Theorem increment_synack_wraps_to_one (s : Z) :
  0 <= s <= 65535 ->
  (s < 65535 -> increment_synack s = s + 1) /\
  (s = 65535 -> increment_synack s = 1) /\
  increment_synack s <> 0 /\
  (forall n : nat, Nat.iter (S n) increment_synack s <> 0).
Proof.
  intros Hs. repeat split.
  - intros Hlt. unfold increment_synack.
    destruct (s <? 65535) eqn:E; [reflexivity | apply Z.ltb_ge in E; lia].
  - intros ->. reflexivity.
  - pose proof (increment_synack_range s ltac:(lia)). lia.
  - intros n. pose proof (iter_increment_synack_range n s ltac:(lia)). lia.
Qed.

Lemma increment_synack_wraps_to_one_witness :
  0 <= 65535 <= 65535 /\
  increment_synack 65535 = 1 /\
  Nat.iter 3 increment_synack 65535 <> 0.
Proof.
  pose proof (increment_synack_wraps_to_one 65535 ltac:(lia)) as [_ [H1 [_ H3]]].
  split; [lia|]. split; [apply H1; reflexivity | apply (H3 2%nat)].
Defined.

(** ** The handler of the server *)

Section Handlers.

Variable unpack_segment_header : bytes -> option Header.
Variable build_segment_header : Z -> Z -> bool -> bool -> bool -> option Z -> bytes.

Local Opaque pack_and_pad firstn skipn.



(** A segment whose checksum accumulator is not [0xFFFF] is dropped by
    the server: the handler returns with the socket as it was. *)
Lemma server_drops_bad_checksum (self : Server) (segment : bytes) (acc : Z) :
  checksum_acc segment = Some acc ->
  acc <> 0xFFFF ->
  lossy_layer_segment_received unpack_segment_header build_segment_header
    self segment = Returned self [].
Proof.
  intros Hacc Hbad. unfold lossy_layer_segment_received. rewrite Hacc.
  destruct (acc =? 65535) eqn:E; [apply Z.eqb_eq in E; contradiction|].
  reflexivity.
Qed.

(** C10: for every received byte string of odd length the server's
    [lossy_layer_segment_received] raises the [struct.error] of
    [struct.iter_unpack] from the checksum computation instead of
    dropping the segment; the socket is as it was and nothing is sent. *)
Theorem odd_length_raises_struct_error (self : Server) (segment : bytes) :
  Nat.odd (length segment) = true ->
  lossy_layer_segment_received unpack_segment_header build_segment_header
    self segment = Raised StructError self [].
Proof.
  intros Hodd. apply checksum_acc_odd in Hodd.
  unfold lossy_layer_segment_received. rewrite Hodd. reflexivity.
Qed.







(** ** Release of the lossy layer *)

(** [close] after [close] asks nothing more of the layer. *)
Lemma close_twice (self : Server) :
  let (self1, evs1) := close self in
  let (self2, evs2) := close self1 in
  self2 = self1 /\ evs2 = [] /\ (releases (evs1 ++ evs2) <= 1)%nat.
Proof.
  unfold close. cbn [_lossy_layer set_lossy_layer].
  destruct (_lossy_layer self); repeat split; try reflexivity;
    unfold releases; simpl; lia.
Qed.





End Handlers.

(** ** The claims about data, FIN and acknowledgements, at the code *)




(** C4 (the code departs from the claim): the server drops a segment
    with a bad checksum as the claim says, returning with the socket
    unchanged; the client does not return: [struct] is not imported in
    its module, so its handler raises [NameError] at line 74 for every
    received byte sequence. *)
Theorem client_handler_raises_name_error :
  (forall (unpack_segment_header : bytes -> option Header)
          (build_segment_header : Z -> Z -> bool -> bool -> bool -> option Z -> bytes)
          (self : Server) (segment : bytes) (acc : Z),
     checksum_acc segment = Some acc -> acc <> 0xFFFF ->
     lossy_layer_segment_received unpack_segment_header build_segment_header
       self segment = Returned self []) /\
  (forall (client : Client.t) (segment : bytes),
     Client.lossy_layer_segment_received client segment
     = Raised NameError client []) /\
  checksum_acc example_corrupt = Some 1 /\
  Client.lossy_layer_segment_received example_client example_corrupt
  = Raised NameError example_client [].
Proof.
  split; [|split; [|split]]; try reflexivity.
  intros u b self segment acc. apply server_drops_bad_checksum.
Qed.

(** ** [accept] *)

Section Accept.

Variable randint : nat -> Z.

Lemma accept_steps_succ_r (net : nat -> Server -> Server) (n : nat) (c : accept_cfg) :
  accept_steps net randint (S n) c
  = accept_steps net randint n (accept_step net randint c).
Proof. unfold accept_steps. apply Nat.iter_succ_r. Qed.

Lemma accept_steps_succ (net : nat -> Server -> Server) (n : nat) (c : accept_cfg) :
  accept_steps net randint (S n) c
  = accept_step net randint (accept_steps net randint n c).
Proof. reflexivity. Qed.

Lemma accept_steps_raised (net : nat -> Server -> Server) (n : nat)
    (c : accept_cfg) (e : exn) :
  pc c = AcceptRaised e -> accept_steps net randint n c = c.
Proof.
  intros Hpc. induction n as [|n IH]; [reflexivity|].
  rewrite accept_steps_succ, IH.
  unfold accept_step. rewrite Hpc. reflexivity.
Qed.

(** The waiting loop under silence: the state stays [ACCEPTING] and the
    counter grows by 10 with every sleep, as long as it stays within
    5000. *)
Lemma wait_under_silence (m : nat) (t : Z) (self : Server)
    (evs : list event) (k d : nat) :
  _state self = ACCEPTING ->
  t + 10 * Z.of_nat m <= 5000 ->
  accept_steps silent_net randint m (mkCfg AtWait t self evs k d)
  = mkCfg AtWait (t + 10 * Z.of_nat m) self evs (m + k) d.
Proof.
  intros Hst. induction m as [|m IH]; intros Hle.
  - cbn. rewrite Z.add_0_r. reflexivity.
  - rewrite accept_steps_succ, IH by lia.
    unfold accept_step, silent_net. cbn [pc sock timeout sent sleeps draws].
    rewrite Hst. cbn [state_eqb negb].
    destruct (t + 10 * Z.of_nat m + 10 >? 5000) eqn:E.
    + apply Z.gtb_lt in E. lia.
    + f_equal. lia.
Qed.

(** C2 (the code departs from the claim): after [accept] is called on a
    new server socket and no segment ever arrives, the first inner loop
    times out at its 501st sleep and writes [CLOSED]; the call
    [send_SYNACK()] of line 256 then raises [NameError].  [accept] ends
    in [CLOSED] after a bounded number of steps, but by an exception
    that its code does not raise on purpose, not by returning a
    failure. *)
Theorem accept_raises_name_error_under_silence (window : Z) :
  accept silent_net randint 503 (Server_init window)
  = Some (Raised NameError
            (mkServer CLOSED window (Some LossyLayerObject) (mkQueue window [])
                      (randint 0%nat) 0 (randint 0%nat) 0) []) /\
  accept silent_net randint 502 (Server_init window) = None.
Proof.
  set (s0 := mkServer ACCEPTING window (Some LossyLayerObject)
               (mkQueue window []) (randint 0%nat) 0 (randint 0%nat) 0).
  assert (H1 : accept_step silent_net randint (accept_start (Server_init window))
               = mkCfg AtWait 0 s0 [] 0 1) by reflexivity.
  assert (H500 : accept_steps silent_net randint 501
                   (accept_start (Server_init window))
                 = mkCfg AtWait 5000 s0 [] 500 1).
  { change 501%nat with (S 500). rewrite accept_steps_succ_r, H1.
    rewrite wait_under_silence by (reflexivity || lia). f_equal. }
  assert (H502 : accept_steps silent_net randint 502
                   (accept_start (Server_init window))
                 = mkCfg AtSynAck 5010 (set_state CLOSED s0) [] 501 1).
  { change 502%nat with (S 501). rewrite accept_steps_succ, H500.
    reflexivity. }
  split.
  - unfold accept. cbv zeta. change 503%nat with (S 502).
    rewrite accept_steps_succ, H502. reflexivity.
  - unfold accept. cbv zeta. rewrite H502. reflexivity.
Qed.

End Accept.

(** ** [recv] *)

Section Recv.

Variable net : nat -> Server -> Server.

Lemma recv_wait_passes (fuel sleeps : nat) (self : Server) :
  empty (s_queue self) && state_eqb (_state self) ESTABLISHED = false ->
  recv_wait net fuel sleeps self = Some self.
Proof. intros H. destruct fuel; simpl; rewrite H; reflexivity. Qed.

(** Whenever fewer items are queued than the loop has iterations left,
    the loop meets the empty queue and raises [NameError]; the items
    taken so far are gone from the queue. *)
Lemma recv_drain_raises (todo : nat) :
  forall (data : bytes) (self : Server),
  (length (items (s_queue self)) < todo)%nat ->
  recv_drain todo data self
  = RecvRaised NameError (set_s_queue (mkQueue (maxsize (s_queue self)) []) self).
Proof.
  induction todo as [|todo IH]; intros data self Hlen; [lia|].
  destruct self as [st w layer [m its] syn ack ea ca].
  destruct its as [|item rest]; [reflexivity|].
  change (recv_drain (S todo) data
            (mkServer st w layer (mkQueue m (item :: rest)) syn ack ea ca))
    with (recv_drain todo (data ++ item)
            (mkServer st w layer (mkQueue m rest) syn ack ea ca)).
  rewrite IH by (cbn [s_queue items length] in *; lia).
  reflexivity.
Qed.

(** With 26 or more items queued, [recv] returns 26 of them. *)
Lemma recv_drain_returns (todo : nat) :
  forall (data : bytes) (self : Server),
  (todo <= length (items (s_queue self)))%nat ->
  recv_drain todo data self
  = RecvReturned (data ++ concat (firstn todo (items (s_queue self))))
      (set_s_queue (mkQueue (maxsize (s_queue self))
                            (skipn todo (items (s_queue self)))) self).
Proof.
  induction todo as [|todo IH]; intros data self Hlen.
  - destruct self as [st w layer [m its] syn ack ea ca].
    cbn. rewrite app_nil_r. reflexivity.
  - destruct self as [st w layer [m its] syn ack ea ca].
    destruct its as [|item rest]; [simpl in Hlen; lia|].
    change (recv_drain (S todo) data
              (mkServer st w layer (mkQueue m (item :: rest)) syn ack ea ca))
      with (recv_drain todo (data ++ item)
              (mkServer st w layer (mkQueue m rest) syn ack ea ca)).
    rewrite IH by (cbn [s_queue items length] in *; lia).
    cbn [set_s_queue s_queue items maxsize _state _window _lossy_layer s_syn
         s_ack establishing_ack closing_ack firstn skipn concat].
    rewrite <- app_assoc. reflexivity.
Qed.

(** [recv] on a connection that is not [ESTABLISHED], or with something
    queued, does not wait; with fewer than 26 items queued it then
    raises [NameError]. *)
Lemma recv_raises_name_error (fuel : nat) (self : Server) :
  empty (s_queue self) && state_eqb (_state self) ESTABLISHED = false ->
  (length (items (s_queue self)) < 26)%nat ->
  recv net fuel self
  = Some (RecvRaised NameError
            (set_s_queue (mkQueue (maxsize (s_queue self)) []) self)).
Proof.
  intros Hgo Hlen. unfold recv. rewrite recv_wait_passes by exact Hgo.
  rewrite recv_drain_raises by exact Hlen. reflexivity.
Qed.

(** C3 (the code departs from the claim): on the terminated connection
    with an empty delivery queue, [recv] does not wait, and it does not
    return [b''] either: it raises [NameError] to the application. *)
Theorem recv_raises_on_terminated_empty (fuel : nat) :
  recv net fuel example_closed = Some (RecvRaised NameError example_closed).
Proof. apply (recv_raises_name_error fuel example_closed); [reflexivity | simpl; lia]. Qed.

End Recv.

(** ** The client's [send] *)

(** C9 (the code departs from the claim): for every byte string the
    client's [send] raises [NotImplementedError]; it takes no byte into
    any buffer and returns no count. *)
Theorem client_send_not_implemented (self : Client.t) (data : bytes) :
  Client.send self data = Raised NotImplementedError self [].
Proof. reflexivity. Qed.


(** * The theorems at the example connection *)

Lemma odd_length_raises_struct_error_witness :
  Nat.odd (length [x00; x0b; x00]) = true /\
  lossy_layer_segment_received unpack_HHBBHH build_HHBBHH
    example_established [x00; x0b; x00]
  = Raised StructError example_established [].
Proof.
  split; [reflexivity|].
  apply (odd_length_raises_struct_error unpack_HHBBHH build_HHBBHH
           example_established [x00; x0b; x00]).
  reflexivity.
Defined.



(** * Further properties of the code *)

(** ** The checksum *)

Ltac mod_lia := Z.to_euclidean_division_equations; lia.

(** One pass of the carry loop keeps the value modulo [0xFFFF] and never
    reaches 0 from a positive value. *)
Lemma fold_carry_mod (fuel : nat) :
  forall acc, 0 <= acc ->
    fold_carry fuel acc mod 65535 = acc mod 65535 /\
    (0 < acc -> 0 < fold_carry fuel acc).
Proof.
  induction fuel as [|fuel IH]; intros acc Hacc; [split; auto|].
  cbn [fold_carry]. destruct (acc >? 65535) eqn:Hgt; [|split; auto].
  apply Z.gtb_lt in Hgt.
  rewrite land_shiftr_16 by lia.
  assert (Hq : 1 <= acc / 65536) by (apply Z.div_le_lower_bound; lia).
  pose proof (Z.mul_div_le acc 65536 ltac:(lia)) as Hle.
  destruct (IH (acc - 65535 * (acc / 65536)) ltac:(lia)) as [Hmod Hpos].
  split.
  - rewrite Hmod.
    replace (acc - 65535 * (acc / 65536))
      with (acc + (- (acc / 65536)) * 65535) by lia.
    apply Z_mod_plus_full.
  - intros _. apply Hpos. lia.
Qed.

(** The loop computes the end-around-carry sum: 0 for 0, and otherwise
    the representative of [acc] modulo [0xFFFF] in [1 .. 0xFFFF]. *)
Lemma fold16_closed_form (acc : Z) :
  0 <= acc ->
  fold16 acc = if acc =? 0 then 0 else (acc - 1) mod 65535 + 1.
Proof.
  intros Hacc.
  pose proof (fold16_le acc Hacc) as Hle.
  destruct (fold_carry_mod (Z.to_nat (acc / 65535) + 1) acc Hacc) as [Hmod Hpos].
  fold (fold16 acc) in Hmod, Hpos.
  change 0xFFFF with 65535 in Hle.
  destruct (acc =? 0) eqn:E.
  - apply Z.eqb_eq in E. subst acc. reflexivity.
  - apply Z.eqb_neq in E. specialize (Hpos ltac:(lia)).
    revert Hmod. generalize dependent (fold16 acc). intros r Hr Hpos Hmod.
    mod_lia.
Qed.

Lemma fold16_valid_iff (acc : Z) :
  0 <= acc ->
  (fold16 acc = 0xFFFF <-> 0 < acc /\ acc mod 65535 = 0).
Proof.
  intros Hacc. rewrite fold16_closed_form by exact Hacc.
  change 0xFFFF with 65535.
  destruct (acc =? 0) eqn:E.
  - apply Z.eqb_eq in E. subst acc. split; [discriminate | lia].
  - apply Z.eqb_neq in E. split; intros H; [split; [lia|] |]; mod_lia.
Qed.

Lemma word16_range (hi lo : byte) : 0 <= word16 hi lo <= 65535.
Proof.
  pose proof (byte_val_range hi). pose proof (byte_val_range lo).
  unfold word16. lia.
Qed.

Lemma sum_app (xs ys : list Z) : sum (xs ++ ys) = sum xs + sum ys.
Proof.
  induction xs as [|x xs IH]; simpl; [reflexivity|].
  unfold sum in *. simpl. rewrite IH. lia.
Qed.

(** The words of a concatenation whose first part has even length. *)
Lemma iter_unpack_H_app :
  forall n a b, (length a <= n)%nat -> Nat.even (length a) = true ->
    iter_unpack_H (a ++ b) =
    match iter_unpack_H a, iter_unpack_H b with
    | Some x, Some y => Some (x ++ y)
    | _, _ => None
    end.
Proof.
  induction n as [|n IH]; intros a b Hlen Heven.
  - destruct a; [|simpl in Hlen; lia]. simpl.
    destruct (iter_unpack_H b); reflexivity.
  - destruct a as [|hi [|lo rest]].
    + simpl. destruct (iter_unpack_H b); reflexivity.
    + discriminate.
    + change ((hi :: lo :: rest) ++ b) with (hi :: lo :: (rest ++ b)).
      cbn [iter_unpack_H].
      rewrite (IH rest b) by (simpl in *; first [lia | assumption]).
      destruct (iter_unpack_H rest), (iter_unpack_H b); reflexivity.
Qed.

Lemma iter_unpack_H_even (buffer : bytes) :
  Nat.even (length buffer) = true -> exists ws, iter_unpack_H buffer = Some ws.
Proof.
  intros Heven.
  destruct (iter_unpack_H buffer) as [ws|] eqn:E; [eexists; reflexivity|].
  apply (iter_unpack_H_odd (length buffer) buffer (Nat.le_refl _)) in E.
  rewrite <- Nat.negb_even, Heven in E. discriminate.
Qed.

Lemma iter_unpack_H_sum_nonneg (buffer : bytes) (ws : list Z) :
  iter_unpack_H buffer = Some ws -> 0 <= sum ws.
Proof. apply (iter_unpack_H_nonneg (length buffer)). apply Nat.le_refl. Qed.

(** X1: for a segment of even length the accumulator that the handlers
    test is the end-around-carry sum of its 16-bit words: 0 when the
    words sum to 0, otherwise the representative of the sum modulo
    [0xFFFF] in [1 .. 0xFFFF].  So the checksum is valid exactly when
    the sum is a positive multiple of [0xFFFF]; the empty segment and
    a segment of NUL bytes are never valid. *)
Theorem checksum_is_end_around_carry_sum (segment : bytes) (ws : list Z) :
  iter_unpack_H segment = Some ws ->
  checksum_acc segment
  = Some (if sum ws =? 0 then 0 else (sum ws - 1) mod 65535 + 1) /\
  (checksum_acc segment = Some 0xFFFF <-> 0 < sum ws /\ sum ws mod 65535 = 0).
Proof.
  intros Hws. pose proof (iter_unpack_H_sum_nonneg segment ws Hws) as Hnn.
  unfold checksum_acc. rewrite Hws. split.
  - rewrite fold16_closed_form by exact Hnn. reflexivity.
  - rewrite <- fold16_valid_iff by exact Hnn.
    split; [intros [= H]; exact H | intros ->; reflexivity].
Qed.

Lemma checksum_is_end_around_carry_sum_witness :
  iter_unpack_H example_data = Some [11; 0; 1; 2; 0x9788; 0x6869] /\
  checksum_acc example_data = Some 0xFFFF /\
  sum [11; 0; 1; 2; 0x9788; 0x6869] mod 65535 = 0.
Proof.
  destruct (checksum_is_end_around_carry_sum example_data
              [11; 0; 1; 2; 0x9788; 0x6869] eq_refl) as [Hacc Hiff].
  split; [reflexivity|]. split; [exact Hacc|].
  apply Hiff. exact Hacc.
Defined.

Lemma checksum_acc_app (a b : bytes) (x y : list Z) :
  Nat.even (length a) = true ->
  iter_unpack_H a = Some x -> iter_unpack_H b = Some y ->
  checksum_acc (a ++ b) = Some (fold16 (sum x + sum y)).
Proof.
  intros Heven Hx Hy. unfold checksum_acc.
  rewrite (iter_unpack_H_app (length a)) by (apply Nat.le_refl || exact Heven).
  rewrite Hx, Hy, sum_app. reflexivity.
Qed.

(** X2: the checksum notices every change of one aligned 16-bit word of
    a valid segment, except the change between [0x0000] and [0xFFFF]:
    after any other change of the word the segment is no longer
    valid. *)
Theorem checksum_detects_word_change
    (a b : bytes) (hi lo hi' lo' : byte) :
  Nat.even (length a) = true ->
  checksum_acc (a ++ hi :: lo :: b) = Some 0xFFFF ->
  word16 hi' lo' <> word16 hi lo ->
  ~ (word16 hi lo = 0 /\ word16 hi' lo' = 0xFFFF) ->
  ~ (word16 hi lo = 0xFFFF /\ word16 hi' lo' = 0) ->
  checksum_acc (a ++ hi' :: lo' :: b) <> Some 0xFFFF.
Proof.
  intros Heven Hvalid Hneq H0F HF0 Hvalid'.
  destruct (iter_unpack_H_even a Heven) as [x Hx].
  destruct (iter_unpack_H b) as [y|] eqn:Hy.
  - assert (Hw : forall h l, iter_unpack_H (h :: l :: b) = Some (word16 h l :: y))
      by (intros h l; cbn [iter_unpack_H]; rewrite Hy; reflexivity).
    rewrite (checksum_acc_app a _ x _ Heven Hx (Hw hi lo)) in Hvalid.
    rewrite (checksum_acc_app a _ x _ Heven Hx (Hw hi' lo')) in Hvalid'.
    injection Hvalid as Hvalid. injection Hvalid' as Hvalid'.
    pose proof (iter_unpack_H_sum_nonneg a x Hx) as Hxn.
    pose proof (iter_unpack_H_sum_nonneg b y Hy) as Hyn.
    pose proof (word16_range hi lo) as Hr. pose proof (word16_range hi' lo') as Hr'.
    change (sum (word16 hi lo :: y)) with (word16 hi lo + sum y) in Hvalid.
    change (sum (word16 hi' lo' :: y)) with (word16 hi' lo' + sum y) in Hvalid'.
    apply fold16_valid_iff in Hvalid; [|lia].
    apply fold16_valid_iff in Hvalid'; [|lia].
    change 0xFFFF with 65535 in *.
    destruct Hvalid as [_ Hm]. destruct Hvalid' as [_ Hm'].
    revert Hm Hm'. generalize (word16 hi lo) (word16 hi' lo') (sum x) (sum y)
      Hneq H0F HF0 Hr Hr' Hxn Hyn.
    intros w w' sx sy. intros. mod_lia.
  - unfold checksum_acc in Hvalid.
    rewrite (iter_unpack_H_app (length a)) in Hvalid
      by (apply Nat.le_refl || exact Heven).
    rewrite Hx in Hvalid. cbn [iter_unpack_H] in Hvalid. rewrite Hy in Hvalid.
    discriminate.
Qed.

Lemma checksum_detects_word_change_witness :
  Nat.even (length [x00; x0b; x00; x00; x00; x01; x00; x02; x97; x88]) = true /\
  checksum_acc example_data = Some 0xFFFF /\
  word16 x68 x6a <> word16 x68 x69 /\
  checksum_acc example_corrupt <> Some 0xFFFF.
Proof.
  split; [reflexivity|]. split; [reflexivity|]. split; [discriminate|].
  apply (checksum_detects_word_change
           [x00; x0b; x00; x00; x00; x01; x00; x02; x97; x88] []
           x68 x69 x68 x6a);
    try reflexivity; try discriminate; intros [H _]; discriminate H.
Defined.

(** X3: the checksum does not see the order of the words: two parts of
    even length can change places without changing the accumulator, so
    a valid segment stays valid. *)
Theorem checksum_ignores_word_order (a b : bytes) :
  Nat.even (length a) = true ->
  Nat.even (length b) = true ->
  checksum_acc (a ++ b) = checksum_acc (b ++ a).
Proof.
  intros Ha Hb.
  destruct (iter_unpack_H_even a Ha) as [x Hx].
  destruct (iter_unpack_H_even b Hb) as [y Hy].
  rewrite (checksum_acc_app a b x y Ha Hx Hy).
  rewrite (checksum_acc_app b a y x Hb Hy Hx).
  rewrite Z.add_comm. reflexivity.
Qed.

Lemma checksum_ignores_word_order_witness :
  Nat.even (length [x00; x0b; x00; x00]) = true /\
  Nat.even (length [x00; x01; x00; x02; x97; x88; x68; x69]) = true /\
  checksum_acc ([x00; x01; x00; x02; x97; x88; x68; x69] ++ [x00; x0b; x00; x00])
  = Some 0xFFFF.
Proof.
  split; [reflexivity|]. split; [reflexivity|].
  rewrite <- (checksum_ignores_word_order [x00; x0b; x00; x00]
                [x00; x01; x00; x02; x97; x88; x68; x69] eq_refl eq_refl).
  reflexivity.
Defined.

(** ** [pack_and_pad] *)

Lemma concat_repeat_nul (n : nat) : concat (repeat [x00] n) = repeat x00 n.
Proof. induction n as [|n IH]; simpl; [|rewrite IH]; reflexivity. Qed.

Lemma pack_and_pad_short (payload : bytes) :
  (length payload <= 1008)%nat ->
  pack_and_pad payload = payload ++ repeat x00 (1008 - length payload).
Proof.
  intros Hle. unfold pack_and_pad. cbv zeta. rewrite concat_repeat_nul.
  replace (Z.to_nat (1008 - Z.of_nat (length payload)))
    with (1008 - length payload)%nat by lia.
  apply firstn_all2. rewrite length_app, repeat_length. lia.
Qed.

Lemma pack_and_pad_long (payload : bytes) :
  (1008 < length payload)%nat ->
  pack_and_pad payload = firstn 1008 payload.
Proof.
  intros Hgt. unfold pack_and_pad. cbv zeta. rewrite concat_repeat_nul.
  replace (Z.to_nat (1008 - Z.of_nat (length payload))) with 0%nat by lia.
  simpl. rewrite app_nil_r. reflexivity.
Qed.

(** X4: [pack_and_pad] always gives exactly 1008 bytes: a payload of at
    most 1008 bytes followed by NUL bytes, and the first 1008 bytes of a
    longer one. *)
Theorem pack_and_pad_is_1008_bytes (payload : bytes) :
  length (pack_and_pad payload) = 1008%nat /\
  ((length payload <= 1008)%nat ->
   pack_and_pad payload = payload ++ repeat x00 (1008 - length payload)) /\
  ((1008 < length payload)%nat ->
   pack_and_pad payload = firstn 1008 payload).
Proof.
  split; [|split; [apply pack_and_pad_short | apply pack_and_pad_long]].
  destruct (Nat.le_gt_cases (length payload) 1008) as [Hle | Hgt].
  - rewrite pack_and_pad_short by exact Hle.
    rewrite length_app, repeat_length. lia.
  - rewrite pack_and_pad_long by exact Hgt.
    rewrite length_firstn. lia.
Qed.

Lemma iter_unpack_H_nul (k : nat) :
  iter_unpack_H (repeat x00 (2 * k)) = Some (repeat 0 k).
Proof.
  induction k as [|k IH]; [reflexivity|].
  replace (2 * S k)%nat with (S (S (2 * k))) by lia.
  cbn [repeat iter_unpack_H]. rewrite IH. reflexivity.
Qed.

Lemma sum_repeat_0 (k : nat) : sum (repeat 0 k) = 0.
Proof. induction k as [|k IH]; [reflexivity|]. unfold sum in *. simpl. exact IH. Qed.

(** X5: the padding of [pack_and_pad] does not change the checksum: for
    a header of even length and a payload of even length up to 1008
    bytes, the segment with the padded payload has the accumulator of
    the segment with the bare payload. *)
Theorem padding_keeps_checksum (header payload : bytes) :
  Nat.even (length header) = true ->
  Nat.even (length payload) = true ->
  (length payload <= 1008)%nat ->
  checksum_acc (header ++ pack_and_pad payload)
  = checksum_acc (header ++ payload).
Proof.
  intros Hh Hp Hle.
  rewrite (pack_and_pad_short payload Hle).
  apply Nat.even_spec in Hp. destruct Hp as [m Hm].
  replace (1008 - length payload)%nat with (2 * (504 - m))%nat by lia.
  destruct (iter_unpack_H_even header Hh) as [x Hx].
  assert (Hp' : Nat.even (length payload) = true)
    by (apply Nat.even_spec; exists m; exact Hm).
  destruct (iter_unpack_H_even payload Hp') as [y Hy].
  rewrite (checksum_acc_app header payload x y Hh Hx Hy).
  assert (Hpn : iter_unpack_H (payload ++ repeat x00 (2 * (504 - m)))
                = Some (y ++ repeat 0 (504 - m))).
  { rewrite (iter_unpack_H_app (length payload))
      by (apply Nat.le_refl || exact Hp').
    rewrite Hy, iter_unpack_H_nul. reflexivity. }
  rewrite (checksum_acc_app header _ x _ Hh Hx Hpn).
  rewrite sum_app, sum_repeat_0, Z.add_0_r. reflexivity.
Qed.

Lemma padding_keeps_checksum_witness :
  Nat.even (length (firstn 10 example_data)) = true /\
  Nat.even (length [x68; x69]) = true /\
  (length [x68; x69] <= 1008)%nat /\
  checksum_acc (firstn 10 example_data ++ pack_and_pad [x68; x69]) = Some 0xFFFF.
Proof.
  split; [reflexivity|]. split; [reflexivity|]. split; [simpl; lia|].
  rewrite (padding_keeps_checksum (firstn 10 example_data) [x68; x69]
             eq_refl eq_refl ltac:(simpl; lia)).
  reflexivity.
Defined.

(** ** The handler of the server, branch by branch and as a whole *)

Section MoreHandlers.

Variable unpack_segment_header : bytes -> option Header.
Variable build_segment_header : Z -> Z -> bool -> bool -> bool -> option Z -> bytes.

Local Opaque pack_and_pad firstn skipn.

Ltac reduce_handler :=
  unfold lossy_layer_segment_received, qsize,
         set_state, set_s_ack, set_s_syn, set_s_queue, set_closing_ack;
  cbn [_state _window _lossy_layer s_queue s_syn s_ack establishing_ack
       closing_ack maxsize items seqnum acknum syn_set ack_set fin_set
       state_eqb andb orb negb sock_of events_of].

Ltac split_handler :=
  repeat match goal with
    | |- context [match ?x with _ => _ end] =>
        is_var x; destruct x; cbn [sock_of events_of andb orb negb app]
    | |- context [match ?x with _ => _ end] =>
        match type of x with bool => destruct x eqn:? end;
        cbn [sock_of events_of andb orb negb app]
    | |- context [match ?x with _ => _ end] =>
        destruct x eqn:?; cbn [sock_of events_of andb orb negb app]
    end.

(** Opens the handler on a socket given by its fields, down to the
    flags of a header that passed the checksum test. *)
Ltac open_handler segment h :=
  reduce_handler;
  destruct (checksum_acc segment) as [?acc|]; [|reduce_handler];
  [destruct (negb (_ =? 65535)); [reduce_handler|];
   [|destruct (unpack_segment_header (firstn 10 segment)) as [h|];
     [|reduce_handler]]|].


(** X7: whatever arrives, one call of the handler asks at most one thing
    of the lossy layer, and it never writes the configured window, the
    handshake number [establishing_ack], the reference to the lossy
    layer or the bound of the delivery queue. *)
Theorem handler_frame (self : Server) (segment : bytes) :
  let o := lossy_layer_segment_received unpack_segment_header
             build_segment_header self segment in
  (length (events_of o) <= 1)%nat /\
  _window (sock_of o) = _window self /\
  establishing_ack (sock_of o) = establishing_ack self /\
  _lossy_layer (sock_of o) = _lossy_layer self /\
  maxsize (s_queue (sock_of o)) = maxsize (s_queue self).
Proof.
  destruct self as [st w layer [m its] syn ack ea ca]. cbv zeta.
  open_handler segment h; try (repeat split; simpl; lia).
  destruct (syn_set h), (ack_set h), (fin_set h), st;
    reduce_handler; split_handler; reduce_handler;
    repeat split; simpl; lia.
Qed.


(** The socket at the end of a run, one call after the other. *)
Lemma receive_all_cons (self : Server) (segment : bytes) (rest : list bytes) :
  let o := lossy_layer_segment_received unpack_segment_header
             build_segment_header self segment in
  sock_of (receive_all unpack_segment_header build_segment_header
             self (segment :: rest))
  = match o with
    | Returned self1 _ =>
        sock_of (receive_all unpack_segment_header build_segment_header
                   self1 rest)
    | _ => sock_of o
    end.
Proof.
  cbv zeta. cbn [receive_all].
  destruct (lossy_layer_segment_received unpack_segment_header
              build_segment_header self segment) as [s1 e1|x s1 e1];
    try reflexivity.
  destruct (receive_all unpack_segment_header build_segment_header s1 rest);
    reflexivity.
Qed.



Lemma closing_step (self : Server) (segment : bytes) :
  _state self = CLOSING \/ _state self = CLOSED ->
  let o := lossy_layer_segment_received unpack_segment_header
             build_segment_header self segment in
  (_state (sock_of o) = CLOSING \/ _state (sock_of o) = CLOSED) /\
  s_queue (sock_of o) = s_queue self /\ s_ack (sock_of o) = s_ack self.
Proof.
  intros Hst. destruct self as [st w layer q syn ack ea ca].
  cbn [_state] in Hst. cbv zeta. cbn [_state s_queue s_ack].
  open_handler segment h; try (repeat split; (reflexivity || assumption)).
  destruct Hst as [-> | ->];
    destruct (syn_set h), (ack_set h), (fin_set h);
    reduce_handler; split_handler; reduce_handler;
    repeat split; auto.
Qed.

(** X10: once a FIN has been handled nothing more is delivered: from
    [CLOSING] or [CLOSED], whatever arrives afterwards, the delivery
    queue and the ack cursor stay as they are. *)
Theorem closing_freezes_delivery (segments : list bytes) (self : Server) :
  _state self = CLOSING \/ _state self = CLOSED ->
  let o := receive_all unpack_segment_header build_segment_header
             self segments in
  s_queue (sock_of o) = s_queue self /\ s_ack (sock_of o) = s_ack self.
Proof.
  revert self. induction segments as [|segment rest IH]; intros self Hst; cbv zeta.
  - split; reflexivity.
  - rewrite receive_all_cons.
    pose proof (closing_step self segment Hst) as Hstep. cbv zeta in Hstep.
    destruct (lossy_layer_segment_received unpack_segment_header
                build_segment_header self segment) as [s1 e1|x s1 e1];
      cbn [sock_of] in *; destruct Hstep as (Hst1 & Hq & Ha);
      try (split; assumption).
    destruct (IH s1 Hst1) as [Hq' Ha']. split; congruence.
Qed.

(** *** The handshake *)



(** *** The delivery queue *)



(** *** Edges: the last sequence number *)


End MoreHandlers.

(** ** The handler properties at the example connection *)



Lemma closing_freezes_delivery_witness :
  _state (set_state CLOSING example_established) = CLOSING /\
  s_queue (sock_of (receive_all unpack_HHBBHH build_HHBBHH
                      (set_state CLOSING example_established)
                      [example_data; example_fin; example_data]))
  = mkQueue 4 [].
Proof.
  split; [reflexivity|].
  destruct (closing_freezes_delivery unpack_HHBBHH build_HHBBHH
              [example_data; example_fin; example_data]
              (set_state CLOSING example_established)
              (or_introl eq_refl)) as [Hq Ha].
  exact Hq.
Defined.





(** ** [close], [recv], [accept] and the sequence numbers *)


Section MoreRecv.

Variable net : nat -> Server -> Server.

(** X19: with 26 or more payloads queued, [recv] does not wait and
    returns the first 26 of them, concatenated in queue order, leaving
    the others queued; the loop bound [data_segments <= 25] lets 26
    through. *)
Theorem recv_returns_batch_of_26 (fuel : nat) (self : Server) :
  (26 <= length (items (s_queue self)))%nat ->
  recv net fuel self
  = Some (RecvReturned (concat (firstn 26 (items (s_queue self))))
            (set_s_queue (mkQueue (maxsize (s_queue self))
                                  (skipn 26 (items (s_queue self)))) self)).
Proof.
  intros Hlen. unfold recv.
  rewrite recv_wait_passes.
  - rewrite recv_drain_returns by exact Hlen. reflexivity.
  - unfold empty. destruct (items (s_queue self)); [simpl in Hlen; lia | reflexivity].
Qed.

End MoreRecv.

(** X20: [recv] waits as long as the queue is empty and the state is
    [ESTABLISHED]: if the network thread writes nothing, no number of
    sleeps lets it return. *)
Theorem recv_waits_while_established_and_empty (fuel : nat) (self : Server) :
  empty (s_queue self) = true ->
  _state self = ESTABLISHED ->
  recv silent_net fuel self = None.
Proof.
  intros Hempty Hst. unfold recv.
  assert (Hwait : forall sleeps, recv_wait silent_net fuel sleeps self = None).
  { induction fuel as [|fuel IH]; intros sleeps;
      cbn [recv_wait]; rewrite Hempty, Hst; cbn [state_eqb andb];
      [reflexivity | apply IH]. }
  rewrite Hwait. reflexivity.
Qed.

Lemma recv_returns_batch_of_26_witness :
  (26 <= length (items (mkQueue 0 (repeat [x68] 27))))%nat /\
  recv silent_net 0 (set_s_queue (mkQueue 0 (repeat [x68] 27)) example_closed)
  = Some (RecvReturned (repeat x68 26)
            (set_s_queue (mkQueue 0 [[x68]]) example_closed)).
Proof.
  split; [simpl; lia|].
  exact (recv_returns_batch_of_26 silent_net 0
           (set_s_queue (mkQueue 0 (repeat [x68] 27)) example_closed)
           ltac:(simpl; lia)).
Defined.

Lemma recv_waits_while_established_and_empty_witness :
  empty (s_queue example_established) = true /\
  _state example_established = ESTABLISHED /\
  recv silent_net 1000 example_established = None.
Proof.
  split; [reflexivity|]. split; [reflexivity|].
  exact (recv_waits_while_established_and_empty 1000 example_established
           eq_refl eq_refl).
Defined.

(** *** Sequence numbers *)

Lemma iter_increment_synack_closed_form (n : nat) (s : Z) :
  1 <= s <= 65535 ->
  Nat.iter n increment_synack s = (s - 1 + Z.of_nat n) mod 65535 + 1.
Proof.
  intros Hs. induction n as [|n IH].
  - simpl. mod_lia.
  - change (Nat.iter (S n) increment_synack s)
      with (increment_synack (Nat.iter n increment_synack s)).
    rewrite IH. rewrite Nat2Z.inj_succ.
    unfold increment_synack.
    destruct ((s - 1 + Z.of_nat n) mod 65535 + 1 <? 65535) eqn:E;
      [apply Z.ltb_lt in E | apply Z.ltb_ge in E];
      generalize dependent (Z.of_nat n); intros k; intros; mod_lia.
Qed.

(** X21: sequence numbers run in a cycle of length 65535 through
    [1 .. 65535]: [n] increments of a number [s] in that range give
    [(s - 1 + n) mod 65535 + 1], so 65535 increments give [s] back, and
    fewer never do. *)
Theorem increment_synack_cycle (s : Z) :
  1 <= s <= 65535 ->
  (forall n : nat,
     Nat.iter n increment_synack s = (s - 1 + Z.of_nat n) mod 65535 + 1) /\
  Nat.iter (Z.to_nat 65535) increment_synack s = s /\
  (forall n : nat, 0 < Z.of_nat n < 65535 ->
                   Nat.iter n increment_synack s <> s).
Proof.
  intros Hs. split; [|split].
  - intros n. apply iter_increment_synack_closed_form. exact Hs.
  - rewrite iter_increment_synack_closed_form by exact Hs.
    rewrite Z2Nat.id by lia. mod_lia.
  - intros n Hn. rewrite iter_increment_synack_closed_form by exact Hs.
    generalize dependent (Z.of_nat n). intros k; intros. mod_lia.
Qed.

Lemma increment_synack_cycle_witness :
  1 <= 65534 <= 65535 /\
  Nat.iter 3 increment_synack 65534 = 2.
Proof.
  split; [lia|].
  destruct (increment_synack_cycle 65534 ltac:(lia)) as [Hform _].
  rewrite (Hform 3%nat). reflexivity.
Defined.

(** *** [accept] with any network thread *)

Section MoreAccept.

Variable net : nat -> Server -> Server.
Variable randint : nat -> Z.

(** The waiting loop ends: with [m + 1] sleeps left before the counter
    passes 5000, [m + 2] steps reach the call of line 256 and raise. *)
Lemma wait_ends (m : nat) :
  forall c : accept_cfg,
  pc c = AtWait -> sent c = [] ->
  5000 < timeout c + 10 * (Z.of_nat m + 1) ->
  ended_at_synack (accept_steps net randint (m + 2) c).
Proof.
  induction m as [|m IH]; intros [p t self evs k d] Hpc Hsent Ht;
    cbn [pc sent timeout] in *; subst p evs.
  - change (0 + 2)%nat with 2%nat.
    rewrite !accept_steps_succ_r. cbn [accept_steps Nat.iter nat_rect].
    unfold accept_steps. cbn [Nat.iter nat_rect].
    unfold accept_step at 2. cbn [pc sock timeout sent sleeps draws].
    destruct (state_eqb (_state self) SYN_RCVD) eqn:Est; cbn [negb].
    + unfold accept_step, ended_at_synack. cbn [pc sock timeout sent sleeps draws].
      destruct (_state self); try discriminate. auto.
    + destruct (t + 10 >? 5000) eqn:E; [|rewrite Z.gtb_ltb in E; apply Z.ltb_ge in E; lia].
      unfold accept_step, ended_at_synack, set_state.
      cbn [pc sock timeout sent sleeps draws _state]. auto.
  - change (S m + 2)%nat with (S (m + 2)). rewrite accept_steps_succ_r.
    unfold accept_step at 1. cbn [pc sock timeout sent sleeps draws].
    destruct (state_eqb (_state self) SYN_RCVD) eqn:Est; cbn [negb].
    + replace (m + 2)%nat with (S (m + 1)) by lia.
      rewrite accept_steps_succ_r.
      rewrite (accept_steps_raised randint net (m + 1) _ NameError) by reflexivity.
      unfold accept_step, ended_at_synack. cbn [pc sock timeout sent sleeps draws].
      destruct (_state self); try discriminate. auto.
    + destruct (t + 10 >? 5000) eqn:E.
      * replace (m + 2)%nat with (S (m + 1)) by lia.
        rewrite accept_steps_succ_r.
        rewrite (accept_steps_raised randint net (m + 1) _ NameError) by reflexivity.
        unfold accept_step, ended_at_synack, set_state.
        cbn [pc sock timeout sent sleeps draws _state]. auto.
      * apply IH; cbn [pc sent timeout]; try reflexivity.
        rewrite Nat2Z.inj_succ in Ht. lia.
Qed.

(** X22: [accept] never returns.  Whatever the network thread does
    during the sleeps, whatever [random.randint] gives and whatever
    socket it is called on, [accept] ends within 503 steps, after at
    most 501 sleeps, by the [NameError] of the call [send_SYNACK()] at
    line 256: nothing has been sent, and the state is the [SYN_RCVD]
    that ended the waiting loop or the [CLOSED] written by its
    timeout. *)
Theorem accept_always_raises_name_error (self : Server) :
  exists self' : Server,
    accept net randint 503 self = Some (Raised NameError self' []) /\
    (_state self' = SYN_RCVD \/ _state self' = CLOSED).
Proof.
  pose proof (wait_ends 500 (accept_step net randint (accept_start self)))
    as Hend.
  unfold accept. cbv zeta.
  change 503%nat with (S (500 + 2)). rewrite accept_steps_succ_r.
  destruct Hend as (Hpc & Hsent & Hst); [reflexivity | reflexivity | |].
  - unfold accept_step, accept_start. cbn [pc timeout].
    change (Z.of_nat 500) with 500. lia.
  - rewrite Hpc, Hsent. eexists. split; [reflexivity | exact Hst].
Qed.

End MoreAccept.
